(** * LatestArtifactStrategy: the latest-n artifacts of every channel

    A verification development for
    [tfx/dsl/input_resolution/strategies/latest_artifact_strategy.py].

    The file has two layers.

    - The value layer reads the Python code as a function on values: a
      [Dict[str, List[Artifact]]] is a finite map from strings to lists,
      and an exception is a constructor of the result type.
    - The object layer (module [Store]) reads the same code over a store
      of mutable list and dict objects addressed by references, so that
      statements about what the code leaves untouched, and about calling
      it twice, say something.  A simulation lemma links the two. *)

From Stdlib Require Import ZArith.
From stdpp Require Import base tactics option list sorting strings gmap fin_maps.

Local Open Scope Z_scope.

(** ** Python results: a value or a raised exception *)

(** The only exception the code can raise by itself is the [TypeError] of
    comparing an [int] with [None]. *)
Inductive exn : Type := TypeError.

Inductive result (A : Type) : Type :=
| Ok (a : A)
| Raise (e : exn).
Arguments Ok {A} a.
Arguments Raise {A} e.

Definition result_bind {A B} (r : result A) (k : A → result B) : result B :=
  match r with
  | Ok a => k a
  | Raise e => Raise e
  end.

Declare Scope result_scope.
Delimit Scope result_scope with result.
Notation "x ←! r ; k" := (result_bind r (λ x, k))
  (at level 20, r at level 100, k at level 200, only parsing, right associativity)
  : result_scope.
Local Open Scope result_scope.

(** ** Python built-ins used by the strategy *)

Section builtins.
Context {A : Type}.

(** [len(l)], as a Python [int]. *)
Definition len (l : list A) : Z := Z.of_nat (length l).

(** One step of a stable insertion: [x] stood before every element of [l]
    in the original list, so it goes before the first element that does
    not have to precede it.  With [reverse=True] an element has to
    precede [x] when its key is strictly greater, without it when its key
    is strictly smaller. *)
Fixpoint sorted_insert (key : A → Z) (reverse : bool) (x : A) (l : list A)
    : list A :=
  match l with
  | [] => [x]
  | y :: l' =>
      if (if reverse then key x <? key y else key y <? key x)
      then y :: sorted_insert key reverse x l'
      else x :: y :: l'
  end.

(** [sorted(l, key=key, reverse=reverse)]: a new list, stably sorted by
    [key]; [reverse=True] sorts in descending order and, as in Python,
    still keeps elements with equal keys in their original order. *)
Fixpoint sorted (key : A → Z) (reverse : bool) (l : list A) : list A :=
  match l with
  | [] => []
  | x :: l' => sorted_insert key reverse x (sorted key reverse l')
  end.

(** [l[:stop]]: a negative [stop] counts from the end, and the bound is
    then clipped into [0 .. len(l)]. *)
Definition slice_upto (l : list A) (stop : Z) : list A :=
  let stop' :=
    if stop <? 0 then Z.max 0 (stop + len l) else Z.min stop (len l) in
  take (Z.to_nat stop') l.
End builtins.

(** [min(a, b)] where [b] may be [None]: Python evaluates [b < a], which
    raises [TypeError] for [None], and returns [a] unless [b < a]. *)
Definition py_min (a : Z) (b : option Z) : result Z :=
  match b with
  | Some b => Ok (if b <? a then b else a)
  | None => Raise TypeError
  end.

(** [a >= b] where [b] may be [None]. *)
Definition py_ge (a : Z) (b : option Z) : result bool :=
  match b with
  | Some b => Ok (b <=? a)
  | None => Raise TypeError
  end.

(** [all(p(x) for x in l)]: stops at the first false element, and at the
    first element whose test raises. *)
Fixpoint all {A} (p : A → result bool) (l : list A) : result bool :=
  match l with
  | [] => Ok true
  | x :: l' => b ←! p x; if (b : bool) then all p l' else Ok false
  end.

(** [d.values()] *)
Definition values {V} (d : gmap string V) : list V := (map_to_list d).*2.

(** ** The strategy, on values *)

(** The object: its one field, an [Optional[int]]. *)
Record LatestArtifactStrategy : Type := {
  _desired_num_of_artifact : option Z
}.

(** An argument of a call that has a default: left out, or passed. *)
Inductive argument (A : Type) : Type :=
| Omitted
| Passed (a : A).
Arguments Omitted {A}.
Arguments Passed {A} a.

(** [def __init__(self, desired_num_of_artifacts: Optional[int] = 1)] *)
Definition __init__ (desired_num_of_artifacts : argument (option Z))
    : LatestArtifactStrategy :=
  {| _desired_num_of_artifact :=
       match desired_num_of_artifacts with
       | Omitted => Some 1
       | Passed v => v
       end |}.

Section strategy.
(** [types.Artifact] and [mlmd.MetadataStore] are declared outside this
    file; the code reads the [id] of an artifact, an integer, and never
    touches the store it is handed. *)
Context {Artifact MetadataStore : Type}.
Variable id : Artifact → Z.

Definition _resolve (self : LatestArtifactStrategy)
    (input_dict : gmap string (list Artifact))
    : result (gmap string (list Artifact)) :=
  map_fold (λ k artifact_list acc,
      result ←! acc;
      let sorted_artifact_list := sorted id true artifact_list in
      stop ←! py_min (len sorted_artifact_list)
                     (_desired_num_of_artifact self);
      Ok (<[k := slice_upto sorted_artifact_list stop]> result))
    (Ok ∅) input_dict.

Definition resolve_artifacts (self : LatestArtifactStrategy)
    (store : MetadataStore) (input_dict : gmap string (list Artifact))
    : result (option (gmap string (list Artifact))) :=
  resolved_dict ←! _resolve self input_dict;
  all_min_count_met ←!
    all (λ artifact_list,
           py_ge (len artifact_list) (_desired_num_of_artifact self))
        (values resolved_dict);
  Ok (if (all_min_count_met : bool) then Some resolved_dict else None).
End strategy.

(** ** The strategy, on objects

    Python lists and dicts are mutable objects, and the variables of the
    code hold references to them.  Here the code is read once more, over a
    heap of such objects, to say what it writes and what it leaves alone.
    Artifacts are never written by the code and stay plain values. *)

Module Store.

(** A reference is an index into the heap; a fresh object goes to its end. *)
Definition ref : Type := nat.

Inductive object (Artifact : Type) : Type :=
| List (l : list Artifact)
| Dict (d : gmap string ref).
Arguments List {Artifact} l.
Arguments Dict {Artifact} d.

Section store.
Context {Artifact MetadataStore : Type}.
Variable id : Artifact → Z.

Definition heap : Type := list (object Artifact).

(** A computation runs on a heap and leaves a heap, also when it raises. *)
Definition M (A : Type) : Type := heap → result A * heap.

Definition ret {A} (a : A) : M A := λ h, (Ok a, h).

Definition lift {A} (r : result A) : M A := λ h, (r, h).

Definition bind {A B} (m : M A) (k : A → M B) : M B :=
  λ h, match m h with
       | (Ok a, h') => k a h'
       | (Raise e, h') => (Raise e, h')
       end.

Declare Scope store_scope.
Notation "x ←! m ; k" := (bind m (λ x, k))
  (at level 20, m at level 100, k at level 200, only parsing, right associativity)
  : store_scope.
Local Open Scope store_scope.

(** A new object. *)
Definition alloc (o : object Artifact) : M ref :=
  λ h, (Ok (length h), h ++ [o]).

(** What a reference holds, when the code needs a list or a dict there.
    The type annotations of the source exclude the other cases. *)
Definition as_list (r : ref) : M (list Artifact) :=
  λ h, match h !! r with
       | Some (List l) => (Ok l, h)
       | _ => (Raise TypeError, h)
       end.

Definition as_dict (r : ref) : M (gmap string ref) :=
  λ h, match h !! r with
       | Some (Dict d) => (Ok d, h)
       | _ => (Raise TypeError, h)
       end.

(** [d.items()] and [d.values()] *)
Definition dict_items (d : ref) : M (list (string * ref)) :=
  m ←! as_dict d; ret (map_to_list m).

Definition dict_values (d : ref) : M (list ref) :=
  m ←! as_dict d; ret (values m).

(** [d[k] = v]: the one write of the code, in place. *)
Definition dict_setitem (d : ref) (k : string) (v : ref) : M unit :=
  λ h, match h !! d with
       | Some (Dict m) => (Ok (), <[d := Dict (<[k := v]> m)]> h)
       | _ => (Raise TypeError, h)
       end.

(** [len(l)] *)
Definition list_len (l : ref) : M Z :=
  x ←! as_list l; ret (len x).

(** [sorted(l, key=key, reverse=reverse)]: reads [l], returns a new list. *)
Definition list_sorted (key : Artifact → Z) (reverse : bool) (l : ref) : M ref :=
  x ←! as_list l; alloc (List (sorted key reverse x)).

(** [l[:stop]]: reads [l], returns a new list. *)
Definition list_slice_upto (l : ref) (stop : Z) : M ref :=
  x ←! as_list l; alloc (List (slice_upto x stop)).

(** [for x in l: body(x)] *)
Fixpoint for_each {A} (l : list A) (body : A → M unit) : M unit :=
  match l with
  | [] => ret ()
  | x :: l' => _ ←! body x; for_each l' body
  end.

(** [all(p(x) for x in l)] *)
Fixpoint all_m {A} (p : A → M bool) (l : list A) : M bool :=
  match l with
  | [] => ret true
  | x :: l' => b ←! p x; if (b : bool) then all_m p l' else ret false
  end.

Definition _resolve (self : LatestArtifactStrategy) (input_dict : ref)
    : M ref :=
  result ←! alloc (Dict ∅);
  items ←! dict_items input_dict;
  _ ←! for_each items (λ '(k, artifact_list),
        sorted_artifact_list ←! list_sorted id true artifact_list;
        n ←! list_len sorted_artifact_list;
        stop ←! lift (py_min n (_desired_num_of_artifact self));
        truncated ←! list_slice_upto sorted_artifact_list stop;
        dict_setitem result k truncated);
  ret result.

Definition resolve_artifacts (self : LatestArtifactStrategy)
    (store : MetadataStore) (input_dict : ref) : M (option ref) :=
  resolved_dict ←! _resolve self input_dict;
  lists ←! dict_values resolved_dict;
  all_min_count_met ←!
    all_m (λ artifact_list,
             n ←! list_len artifact_list;
             lift (py_ge n (_desired_num_of_artifact self)))
          lists;
  ret (if (all_min_count_met : bool) then Some resolved_dict else None).

(** *** Reading values back from the heap *)

Definition read_list (h : heap) (r : ref) : option (list Artifact) :=
  match h !! r with
  | Some (List l) => Some l
  | _ => None
  end.

(** The value of a dict of lists; [None] when [r] is not such a dict. *)
Definition read_dict (h : heap) (r : ref)
    : option (gmap string (list Artifact)) :=
  match h !! r with
  | Some (Dict d) =>
      if decide (map_Forall (λ _ v, is_Some (read_list h v)) d)
      then Some ((λ v, default [] (read_list h v)) <$> d)
      else None
  | _ => None
  end.

(** The value of what [resolve_artifacts] returned or raised. *)
Definition read_result (h : heap) (r : result (option ref))
    : option (result (option (gmap string (list Artifact)))) :=
  match r with
  | Ok (Some d) => m ← read_dict h d; Some (Ok (Some m))
  | Ok None => Some (Ok None)
  | Raise e => Some (Raise e)
  end.
End store.

End Store.

(** A concrete artifact type for the examples: an id and a uri that tells
    artifacts with the same id apart. *)
Record test_artifact : Type := TestArtifact {
  test_id : Z;
  test_uri : string
}.

Definition with_id (n : Z) : test_artifact := TestArtifact n "artifact".

(** A heap for the examples: two lists, and at reference 2 the input dict
    [{"model": [id=3, id=7, id=5], "data": [id=1]}] that holds them. *)
Definition example_heap : @Store.heap test_artifact :=
  [ Store.List [with_id 3; with_id 7; with_id 5];
    Store.List [with_id 1];
    Store.Dict {[ "model" := 0%nat; "data" := 1%nat ]} ].

(** The same input value laid out differently: behind an unrelated object,
    and with the lists in the other order. *)
Definition example_heap' : @Store.heap test_artifact :=
  [ Store.Dict ∅;
    Store.List [with_id 1];
    Store.List [with_id 3; with_id 7; with_id 5];
    Store.Dict {[ "model" := 2%nat; "data" := 1%nat ]} ].

Definition example_input : gmap string (list test_artifact) :=
  {[ "model" := [with_id 3; with_id 7; with_id 5]; "data" := [with_id 1] ]}.

(** An input dict whose two channels share one list object. *)
Definition example_shared_heap : @Store.heap test_artifact :=
  [ Store.List [with_id 3; with_id 7; with_id 5];
    Store.Dict {[ "model" := 0%nat; "baseline" := 0%nat ]} ].

Definition example_shared_input : gmap string (list test_artifact) :=
  {[ "model" := [with_id 3; with_id 7; with_id 5];
     "baseline" := [with_id 3; with_id 7; with_id 5] ]}.

(** What the default strategy makes of [example_input]. *)
Definition example_latest : gmap string (list test_artifact) :=
  {[ "model" := [with_id 7]; "data" := [with_id 1] ]}.

(** One channel, and the same channel with its list in another order. *)
Definition example_model : gmap string (list test_artifact) :=
  {[ "model" := [with_id 3; with_id 7; with_id 5] ]}.

Definition example_model' : gmap string (list test_artifact) :=
  {[ "model" := [with_id 7; with_id 5; with_id 3] ]}.

Definition example_data : gmap string (list test_artifact) :=
  {[ "data" := [with_id 1] ]}.

(** An operation signals an error to its caller when it raises. *)
Definition signals_error {A} (r : result A) : Prop := ∃ e, r = Raise e.


(** ** Notions used in the statements and proofs *)

(** Descending order of keys, as a relation on neighbours. *)
Definition desc {A} (key : A → Z) (a b : A) : Prop := key b ≤ key a.

(** Strictly descending order of keys. *)
Definition strictly_desc {A} (key : A → Z) (a b : A) : Prop := key b < key a.

Section notions.
Context {Artifact : Type}.
Variable id : Artifact → Z.

(** The body of the loop of [_resolve] for one channel, when the desired
    number is an integer [d]. *)
Definition latest (d : Z) (artifact_list : list Artifact) : list Artifact :=
  let sorted_artifact_list := sorted id true artifact_list in
  slice_upto sorted_artifact_list
    (if d <? len sorted_artifact_list then d else len sorted_artifact_list).

(** A computation keeps [h0] when every heap that begins with [h0] still
    begins with [h0] after it has run. *)
Definition keeps {A} (h0 : @Store.heap Artifact) (m : @Store.M Artifact A) : Prop :=
  ∀ h : Store.heap, h0 `prefix_of` h → h0 `prefix_of` (m h).2.

(** The body of the loop, as it stands in [Store._resolve]. *)
Definition loop_body (self : LatestArtifactStrategy) (result : Store.ref)
    : string * Store.ref → @Store.M Artifact unit :=
  λ '(k, artifact_list),
    Store.bind (Store.list_sorted id true artifact_list)
      (λ sorted_artifact_list,
    Store.bind (Store.list_len sorted_artifact_list) (λ n,
    Store.bind (Store.lift (py_min n (_desired_num_of_artifact self)))
      (λ stop,
    Store.bind (Store.list_slice_upto sorted_artifact_list stop)
      (λ truncated, Store.dict_setitem result k truncated)))).
End notions.

(** * Properties *)

(** ** The built-ins *)

Section builtins_facts.
Context {A : Type} (key : A → Z).

Lemma sorted_insert_Permutation reverse x l :
  sorted_insert key reverse x l ≡ₚ x :: l.
Proof.
  induction l as [|y l IH]; simpl; [done|].
  destruct (if reverse then _ else _); [|done].
  by rewrite IH, Permutation_swap.
Qed.

Lemma sorted_Permutation reverse l : sorted key reverse l ≡ₚ l.
Proof.
  induction l as [|x l IH]; simpl; [done|].
  by rewrite sorted_insert_Permutation, IH.
Qed.

Lemma sorted_length reverse l : length (sorted key reverse l) = length l.
Proof. apply Permutation_length, sorted_Permutation. Qed.

Lemma sorted_insert_desc x l :
  StronglySorted (desc key) l → StronglySorted (desc key) (sorted_insert key true x l).
Proof.
  induction 1 as [|y l Hl IH Hy]; simpl.
  - repeat constructor.
  - destruct (Z.ltb_spec (key x) (key y)) as [Hlt|Hge].
    + constructor; [done|].
      rewrite sorted_insert_Permutation. constructor; [|done].
      unfold desc. lia.
    + constructor; [by constructor|].
      constructor; [done|].
      eapply Forall_impl; [exact Hy|]. unfold desc. intros z ?. lia.
Qed.

Lemma sorted_desc l : StronglySorted (desc key) (sorted key true l).
Proof.
  induction l as [|x l IH]; simpl; [constructor|].
  by apply sorted_insert_desc.
Qed.

(** Stability: among the elements of one key, nothing moves. *)
Lemma sorted_insert_filter_key reverse v x l :
  filter (λ a, key a = v) (sorted_insert key reverse x l)
  = filter (λ a, key a = v) (x :: l).
Proof.
  induction l as [|y l IH]; simpl; [done|].
  destruct (if reverse then _ else _) eqn:Hcmp; [|done].
  rewrite filter_cons, IH, !filter_cons.
  repeat case_decide; try done.
  destruct reverse; lia.
Qed.

Lemma sorted_filter_key reverse v l :
  filter (λ a, key a = v) (sorted key reverse l)
  = filter (λ a, key a = v) l.
Proof.
  induction l as [|x l IH]; simpl; [done|].
  by rewrite sorted_insert_filter_key, !filter_cons, IH.
Qed.

Lemma slice_upto_prefix (l : list A) stop : slice_upto l stop `prefix_of` l.
Proof. apply prefix_take. Qed.

Lemma slice_upto_nonneg (l : list A) stop :
  0 ≤ stop → slice_upto l stop = take (Z.to_nat stop) l.
Proof.
  intros Hstop. unfold slice_upto, len.
  destruct (Z.ltb_spec stop 0) as [?|_]; [lia|].
  destruct (Z.le_ge_cases stop (Z.of_nat (length l))).
  - by rewrite Z.min_l.
  - rewrite Z.min_r, Nat2Z.id by done.
    rewrite !take_ge; [done|lia..].
Qed.

Lemma slice_upto_neg (l : list A) stop :
  stop < 0 → slice_upto l stop = take (length l - Z.to_nat (- stop))%nat l.
Proof.
  intros Hstop. unfold slice_upto, len.
  destruct (Z.ltb_spec stop 0) as [_|?]; [|lia].
  f_equal. lia.
Qed.
End builtins_facts.

(** ** The strategy on values: what the loop computes *)

Lemma Ok_not_signals_error {A} (r : result A) (a : A) :
  r = Ok a → ¬ signals_error r.
Proof. intros -> [e He]. discriminate He. Qed.

Lemma all_pure {A} (p : A → bool) (l : list A) :
  all (λ x, Ok (p x)) l = Ok (forallb p l).
Proof.
  induction l as [|x l IH]; simpl; [done|].
  by destruct (p x).
Qed.

Lemma forallb_values {V} (p : V → bool) (d : gmap string V) :
  forallb p (values d) = true ↔ ∀ k v, d !! k = Some v → p v = true.
Proof.
  unfold values. rewrite forallb_forall. split.
  - intros H k v Hk. apply H, list_elem_of_In, list_elem_of_fmap.
    exists (k, v). by rewrite elem_of_map_to_list.
  - intros H v [[k v'] [-> Hk%elem_of_map_to_list]]%list_elem_of_In%list_elem_of_fmap.
    eauto.
Qed.

Section strategy_facts.
Context {Artifact MetadataStore : Type}.
Variable id : Artifact → Z.

Lemma _resolve_Some self d (input_dict : gmap string (list Artifact)) :
  _desired_num_of_artifact self = Some d →
  _resolve id self input_dict = Ok (latest id d <$> input_dict).
Proof.
  intros Hd. unfold _resolve.
  apply (map_fold_weak_ind (λ r m, r = Ok (latest id d <$> m))).
  - by rewrite fmap_empty.
  - intros k l m r _ ->. rewrite Hd. simpl. by rewrite fmap_insert.
Qed.

Lemma _resolve_None self (input_dict : gmap string (list Artifact)) :
  _desired_num_of_artifact self = None →
  _resolve id self input_dict
  = if decide (input_dict = ∅) then Ok ∅ else Raise TypeError.
Proof.
  intros Hd. unfold _resolve.
  set (P := λ (r : result (gmap string (list Artifact)))
              (m : gmap string (list Artifact)),
              r = if decide (m = ∅) then Ok ∅ else Raise TypeError).
  apply (map_fold_weak_ind P); unfold P.
  - by rewrite decide_True.
  - intros k l m r _ ->. rewrite Hd.
    rewrite (decide_False (P := <[k:=l]> m = ∅)) by apply insert_non_empty.
    by case_decide.
Qed.

Lemma latest_take d l :
  0 ≤ d →
  latest id d l
  = take (Z.to_nat (Z.min (len (sorted id true l)) d)) (sorted id true l).
Proof.
  intros Hd. unfold latest. cbv zeta.
  set (s := sorted id true l).
  destruct (Z.ltb_spec d (len s)).
  - rewrite slice_upto_nonneg by done. f_equal. lia.
  - rewrite slice_upto_nonneg by (unfold len; lia). f_equal. lia.
Qed.

Lemma latest_zero l : latest id 0 l = [].
Proof. rewrite latest_take by done. unfold len. by rewrite Z.min_r by lia. Qed.

Lemma latest_neg d l :
  d < 0 →
  latest id d l = take (length l - Z.to_nat (- d))%nat (sorted id true l).
Proof.
  intros Hd. unfold latest, len. cbv zeta.
  destruct (Z.ltb_spec d (Z.of_nat (length (sorted id true l)))); [|lia].
  by rewrite slice_upto_neg, sorted_length.
Qed.

Lemma latest_prefix d l : latest id d l `prefix_of` sorted id true l.
Proof. apply slice_upto_prefix. Qed.

Lemma latest_len d l : 0 ≤ d → len (latest id d l) = Z.min (len l) d.
Proof.
  intros Hd. rewrite latest_take by done. unfold len.
  rewrite length_take, sorted_length. lia.
Qed.

(** With an integer as desired number nothing raises, and the outcome is
    decided by the lengths of the truncated lists. *)
Lemma resolve_artifacts_Some self d (store : MetadataStore)
    (input_dict : gmap string (list Artifact)) :
  _desired_num_of_artifact self = Some d →
  resolve_artifacts id self store input_dict
  = Ok (if forallb (λ l, d <=? len l) (values (latest id d <$> input_dict))
        then Some (latest id d <$> input_dict) else None).
Proof.
  intros Hd. unfold resolve_artifacts.
  rewrite (_resolve_Some _ d) by done. simpl.
  rewrite Hd. unfold py_ge. by rewrite all_pure.
Qed.

Lemma resolve_artifacts_None self (store : MetadataStore)
    (input_dict : gmap string (list Artifact)) :
  _desired_num_of_artifact self = None →
  resolve_artifacts id self store input_dict
  = if decide (input_dict = ∅) then Ok (Some ∅) else Raise TypeError.
Proof.
  intros Hd. unfold resolve_artifacts.
  rewrite _resolve_None by done. case_decide; [|done].
  simpl. unfold values. by rewrite map_to_list_empty.
Qed.

Lemma min_count_met_iff d (input_dict : gmap string (list Artifact)) :
  0 ≤ d →
  forallb (λ l, d <=? len l) (values (latest id d <$> input_dict)) = true
  ↔ ∀ k l, input_dict !! k = Some l → d ≤ len l.
Proof.
  intros Hd. rewrite forallb_values. split.
  - intros H k l Hk. specialize (H k (latest id d l)).
    rewrite lookup_fmap, Hk in H. specialize (H eq_refl).
    apply Z.leb_le in H. rewrite latest_len in H by done. lia.
  - intros H k out. rewrite lookup_fmap.
    destruct (input_dict !! k) as [l|] eqn:Hk; [|done].
    intros [= <-]. apply Z.leb_le. rewrite latest_len by done.
    specialize (H k l Hk). lia.
Qed.

Lemma min_count_met_nonpos d (input_dict : gmap string (list Artifact)) :
  d ≤ 0 →
  forallb (λ l, d <=? len l) (values (latest id d <$> input_dict)) = true.
Proof.
  intros Hd. apply forallb_values. intros k out _.
  apply Z.leb_le. unfold len. lia.
Qed.
End strategy_facts.

(** ** The strategy on objects: what is written, what is read *)

Lemma foldl_insert_map_to_list {V W} (g : V → W) (m : gmap string V)
    (acc : gmap string W) :
  foldl (λ a kv, <[kv.1 := g kv.2]> a) acc (map_to_list m) = (g <$> m) ∪ acc.
Proof.
  revert acc. induction m as [|k v m Hk Hfirst IH] using map_first_key_ind;
    intros acc.
  - by rewrite map_to_list_empty, fmap_empty, (left_id_L ∅ (∪)).
  - rewrite map_to_list_insert_first_key by done. simpl.
    rewrite IH, fmap_insert. rewrite <-insert_union_l.
    rewrite insert_union_r; [done|]. by rewrite lookup_fmap, Hk.
Qed.

Lemma values_fmap {V W} (g : V → W) (m : gmap string V) :
  values (g <$> m) = g <$> values m.
Proof.
  unfold values. rewrite map_to_list_fmap, <-!list_fmap_compose.
  by apply list_fmap_ext; intros ? [??].
Qed.

Section store_facts.
Context {Artifact MetadataStore : Type}.
Variable id : Artifact → Z.
Local Abbreviation heap := (@Store.heap Artifact).
Local Abbreviation M := (@Store.M Artifact).
Implicit Types (h : heap) (r v : Store.ref).

(** *** The heap only grows, and the old part is not written *)

Lemma keeps_ret {A} h0 (a : A) : keeps h0 (Store.ret a).
Proof. by intros h Hh. Qed.

Lemma keeps_lift {A} h0 (x : result A) : keeps h0 (Store.lift x).
Proof. by intros h Hh. Qed.

Lemma keeps_bind {A B} h0 (m : M A) (k : A → M B) :
  keeps h0 m → (∀ a, keeps h0 (k a)) → keeps h0 (Store.bind m k).
Proof.
  intros Hm Hk h Hh. unfold Store.bind.
  specialize (Hm h Hh). destruct (m h) as [[a|e] h']; simpl in *; [|done].
  by apply Hk.
Qed.

Lemma keeps_alloc h0 o : keeps h0 (Store.alloc o).
Proof. intros h Hh. simpl. by apply prefix_app_r. Qed.

Lemma keeps_as_list h0 r : keeps h0 (Store.as_list r).
Proof.
  intros h Hh. unfold Store.as_list. by destruct (h !! r) as [[]|].
Qed.

Lemma keeps_as_dict h0 r : keeps h0 (Store.as_dict r).
Proof.
  intros h Hh. unfold Store.as_dict. by destruct (h !! r) as [[]|].
Qed.

(** The one write keeps [h0] when its target lies outside of [h0]. *)
Lemma keeps_dict_setitem h0 r k v :
  (length h0 ≤ r)%nat → keeps h0 (Store.dict_setitem r k v).
Proof.
  intros Hr h [rest ->]. unfold Store.dict_setitem.
  destruct (_ !! r) as [[|d]|]; cbn [snd]; try by eexists.
  unfold Store.heap in *. rewrite insert_app_r_alt by done. by eexists.
Qed.

Lemma keeps_for_each {A} h0 (l : list A) (body : A → M unit) :
  (∀ x, keeps h0 (body x)) → keeps h0 (Store.for_each l body).
Proof.
  intros Hbody. induction l as [|x l IH]; simpl.
  - apply keeps_ret.
  - apply keeps_bind; [done|]. by intros _.
Qed.

Lemma keeps_all_m {A} h0 (p : A → M bool) (l : list A) :
  (∀ x, keeps h0 (p x)) → keeps h0 (Store.all_m p l).
Proof.
  intros Hp. induction l as [|x l IH]; simpl.
  - apply keeps_ret.
  - apply keeps_bind; [done|]. intros []; [done|apply keeps_ret].
Qed.

Lemma keeps_list_len h0 r : keeps h0 (Store.list_len r).
Proof.
  apply keeps_bind; [apply keeps_as_list|]. intros ?. apply keeps_ret.
Qed.

Lemma keeps_list_sorted h0 key reverse r :
  keeps h0 (Store.list_sorted key reverse r).
Proof.
  apply keeps_bind; [apply keeps_as_list|]. intros ?. apply keeps_alloc.
Qed.

Lemma keeps_list_slice_upto h0 r stop :
  keeps h0 (Store.list_slice_upto r stop).
Proof.
  apply keeps_bind; [apply keeps_as_list|]. intros ?. apply keeps_alloc.
Qed.

(** The reference of a new object lies outside of every heap that the
    current one begins with. *)
Lemma keeps_bind_alloc {B} h0 o (k : Store.ref → M B) :
  (∀ r, (length h0 ≤ r)%nat → keeps h0 (k r)) →
  keeps h0 (Store.bind (Store.alloc o) k).
Proof.
  intros Hk h Hh. unfold Store.bind, Store.alloc.
  apply Hk; [by apply prefix_length|by apply prefix_app_r].
Qed.

Lemma keeps__resolve h0 self r : keeps h0 (Store._resolve id self r).
Proof.
  apply keeps_bind_alloc. intros result Hresult.
  apply keeps_bind.
  { apply keeps_bind; [apply keeps_as_dict|]. intros ?. apply keeps_ret. }
  intros items. apply keeps_bind; [|intros _; apply keeps_ret].
  apply keeps_for_each. intros [k v].
  apply keeps_bind; [apply keeps_list_sorted|]. intros s.
  apply keeps_bind; [apply keeps_list_len|]. intros n.
  apply keeps_bind; [apply keeps_lift|]. intros stop.
  apply keeps_bind; [apply keeps_list_slice_upto|]. intros t.
  by apply keeps_dict_setitem.
Qed.

Lemma keeps_resolve_artifacts h0 self (store : MetadataStore) r :
  keeps h0 (Store.resolve_artifacts id self store r).
Proof.
  apply keeps_bind; [apply keeps__resolve|]. intros resolved_dict.
  apply keeps_bind.
  { apply keeps_bind; [apply keeps_as_dict|]. intros ?. apply keeps_ret. }
  intros lists. apply keeps_bind; [|intros ?; apply keeps_ret].
  apply keeps_all_m. intros v.
  apply keeps_bind; [apply keeps_list_len|]. intros n. apply keeps_lift.
Qed.
(** *** Reading back *)

Lemma read_list_Some h r l :
  Store.read_list h r = Some l ↔ h !! r = Some (Store.List l).
Proof.
  unfold Store.read_list.
  destruct (h !! r) as [[l'|d]|]; split; intros [=]; by subst.
Qed.

Lemma read_list_prefix h h' r l :
  h `prefix_of` h' → Store.read_list h r = Some l →
  Store.read_list h' r = Some l.
Proof.
  rewrite !read_list_Some. intros Hh Hr. by eapply prefix_lookup_Some.
Qed.

(** Writing a dict over a dict changes no list. *)
Lemma read_list_insert_dict h r d d' v l :
  h !! r = Some (Store.Dict d) → Store.read_list h v = Some l →
  Store.read_list (<[r := Store.Dict d']> h) v = Some l.
Proof.
  rewrite !read_list_Some. intros Hr Hv.
  unfold Store.heap in *. rewrite list_lookup_insert_ne; [done|congruence].
Qed.

Lemma read_dict_Some h r m :
  Store.read_dict h r = Some m ↔
  ∃ d, h !! r = Some (Store.Dict d)
    ∧ map_Forall (λ _ v, is_Some (Store.read_list h v)) d
    ∧ m = (λ v, default [] (Store.read_list h v)) <$> d.
Proof.
  unfold Store.read_dict. split.
  - destruct (h !! r) as [[l|d]|]; try done.
    case_decide; [|done]. intros [= <-]. by exists d.
  - intros (d & -> & Hd & ->). by rewrite decide_True.
Qed.

Lemma read_dict_prefix h h' r m :
  h `prefix_of` h' → Store.read_dict h r = Some m →
  Store.read_dict h' r = Some m.
Proof.
  rewrite !read_dict_Some. intros Hh (d & Hr & Hd & ->). exists d.
  split; [by eapply prefix_lookup_Some|]. split.
  - intros k v Hk. destruct (Hd k v Hk) as [l Hl].
    exists l. by eapply read_list_prefix.
  - apply map_fmap_ext. intros k v Hk. destruct (Hd k v Hk) as [l Hl].
    by rewrite Hl, (read_list_prefix h h' v l).
Qed.

(** *** Running the primitives *)

Lemma bind_run {A B} (m : M A) (k : A → M B) h a h' :
  m h = (Ok a, h') → Store.bind m k h = k a h'.
Proof. unfold Store.bind. by intros ->. Qed.

Lemma bind_raise {A B} (m : M A) (k : A → M B) h e h' :
  m h = (Raise e, h') → Store.bind m k h = (Raise e, h').
Proof. unfold Store.bind. by intros ->. Qed.

Lemma as_list_run h r l :
  h !! r = Some (Store.List l) → Store.as_list r h = (Ok l, h).
Proof. unfold Store.as_list. by intros ->. Qed.

Lemma as_dict_run h r d :
  h !! r = Some (Store.Dict d) → Store.as_dict r h = (Ok d, h).
Proof. unfold Store.as_dict. by intros ->. Qed.

Lemma dict_items_run h r d :
  h !! r = Some (Store.Dict d) →
  Store.dict_items r h = (Ok (map_to_list d), h).
Proof.
  intros Hr. unfold Store.dict_items.
  by rewrite (bind_run _ _ _ _ _ (as_dict_run _ _ _ Hr)).
Qed.

Lemma dict_values_run h r d :
  h !! r = Some (Store.Dict d) →
  Store.dict_values r h = (Ok (values d), h).
Proof.
  intros Hr. unfold Store.dict_values.
  by rewrite (bind_run _ _ _ _ _ (as_dict_run _ _ _ Hr)).
Qed.

Lemma list_len_run h r l :
  h !! r = Some (Store.List l) → Store.list_len r h = (Ok (len l), h).
Proof.
  intros Hr. unfold Store.list_len. by rewrite (bind_run _ _ _ _ _ (as_list_run _ _ _ Hr)).
Qed.

Lemma list_sorted_run key reverse h r l :
  h !! r = Some (Store.List l) →
  Store.list_sorted key reverse r h
  = (Ok (length h), h ++ [Store.List (sorted key reverse l)]).
Proof.
  intros Hr. unfold Store.list_sorted.
  by rewrite (bind_run _ _ _ _ _ (as_list_run _ _ _ Hr)).
Qed.

Lemma list_slice_upto_run stop h r l :
  h !! r = Some (Store.List l) →
  Store.list_slice_upto r stop h
  = (Ok (length h), h ++ [Store.List (slice_upto l stop)]).
Proof.
  intros Hr. unfold Store.list_slice_upto.
  by rewrite (bind_run _ _ _ _ _ (as_list_run _ _ _ Hr)).
Qed.

Lemma dict_setitem_run h r d k v :
  h !! r = Some (Store.Dict d) →
  Store.dict_setitem r k v h
  = (Ok (), <[r := Store.Dict (<[k := v]> d)]> h).
Proof. unfold Store.dict_setitem. by intros ->. Qed.
(** *** The loop of [_resolve] *)

Lemma _resolve_unfold self r h :
  Store._resolve id self r h
  = Store.bind (Store.dict_items r) (λ items,
      Store.bind (Store.for_each items (loop_body id self (length h)))
        (λ _, Store.ret (length h)))
      (h ++ [Store.Dict ∅]).
Proof. reflexivity. Qed.

Lemma loop_body_Some self d result k v h l dres :
  _desired_num_of_artifact self = Some d →
  h !! v = Some (Store.List l) →
  h !! result = Some (Store.Dict dres) →
  loop_body id self result (k, v) h
  = (Ok (),
     <[result := Store.Dict (<[k := S (length h)]> dres)]>
       ((h ++ [Store.List (sorted id true l)])
          ++ [Store.List (latest id d l)])).
Proof.
  intros Hd Hv Hresult. unfold loop_body.
  rewrite (bind_run _ _ _ _ _ (list_sorted_run _ _ _ _ _ Hv)).
  assert (Hs : (h ++ [Store.List (sorted id true l)]) !! length h
               = Some (Store.List (sorted id true l)))
    by by apply list_lookup_middle.
  rewrite (bind_run _ _ _ _ _ (list_len_run _ _ _ Hs)).
  rewrite Hd. unfold Store.lift, Store.bind at 1. cbn [py_min].
  rewrite (bind_run _ _ _ _ _ (list_slice_upto_run _ _ _ _ Hs)).
  rewrite length_app. cbn [length]. rewrite Nat.add_1_r.
  apply dict_setitem_run.
  rewrite <-(assoc_L (++)). by apply lookup_app_l_Some.
Qed.

Lemma loop_body_None self result k v h l :
  _desired_num_of_artifact self = None →
  h !! v = Some (Store.List l) →
  loop_body id self result (k, v) h
  = (Raise TypeError, h ++ [Store.List (sorted id true l)]).
Proof.
  intros Hd Hv. unfold loop_body.
  rewrite (bind_run _ _ _ _ _ (list_sorted_run _ _ _ _ _ Hv)).
  assert (Hs : (h ++ [Store.List (sorted id true l)]) !! length h
               = Some (Store.List (sorted id true l)))
    by by apply list_lookup_middle.
  rewrite (bind_run _ _ _ _ _ (list_len_run _ _ _ Hs)).
  by rewrite Hd.
Qed.

(** One turn of the loop adds one channel to the value of [result]. *)
Lemma loop_body_read_dict self d result k v h l acc :
  _desired_num_of_artifact self = Some d →
  Store.read_list h v = Some l →
  Store.read_dict h result = Some acc →
  ∃ h', loop_body id self result (k, v) h = (Ok (), h')
    ∧ Store.read_dict h' result = Some (<[k := latest id d l]> acc).
Proof.
  intros Hd Hv%read_list_Some (dres & Hresult & Hdres & ->)%read_dict_Some.
  eexists. split; [by apply loop_body_Some|].
  pose proof (lookup_lt_Some _ _ _ Hresult) as Hlt.
  set (h2 := (h ++ [Store.List (sorted id true l)])
               ++ [Store.List (latest id d l)]).
  assert (Hh2 : h2 !! result = Some (Store.Dict dres)).
  { unfold h2. rewrite <-(assoc_L (++)). by apply lookup_app_l_Some. }
  assert (Hframe : ∀ v' l', Store.read_list h v' = Some l' →
    Store.read_list (<[result := Store.Dict (<[k := S (length h)]> dres)]> h2)
      v' = Some l').
  { intros v' l' Hv'. eapply read_list_insert_dict; [done|].
    eapply read_list_prefix; [|done]. unfold h2.
    rewrite <-(assoc_L (++)). by apply prefix_app_r. }
  assert (Hnew : Store.read_list
    (<[result := Store.Dict (<[k := S (length h)]> dres)]> h2) (S (length h))
    = Some (latest id d l)).
  { eapply read_list_insert_dict; [done|]. apply read_list_Some. unfold h2.
    apply list_lookup_middle. rewrite length_app. simpl. lia. }
  apply read_dict_Some. eexists. split_and!.
  - unfold Store.heap in *. apply list_lookup_insert_eq.
    unfold h2. rewrite !length_app. lia.
  - apply map_Forall_insert_2; [by eexists|].
    intros k' v' Hk'. destruct (Hdres k' v' Hk') as [l' Hl']. eauto.
  - rewrite fmap_insert, Hnew. simpl. f_equal.
    apply map_fmap_ext. intros k' v' Hk'.
    destruct (Hdres k' v' Hk') as [l' Hl']. by rewrite Hl', (Hframe v' l').
Qed.

Lemma for_each_loop_body_Some self d h0 result items :
  _desired_num_of_artifact self = Some d →
  Forall (λ kv, is_Some (Store.read_list h0 kv.2)) items →
  ∀ h acc,
    h0 `prefix_of` h →
    Store.read_dict h result = Some acc →
    (length h0 ≤ result)%nat →
    ∃ h', Store.for_each items (loop_body id self result) h = (Ok (), h')
      ∧ Store.read_dict h' result
        = Some (foldl (λ a kv,
                  <[kv.1 := latest id d (default [] (Store.read_list h0 kv.2))]> a)
                  acc items).
Proof.
  intros Hd. induction 1 as [|[k v] items [l Hl] _ IH];
    intros h acc Hh Hacc Hresult.
  - by exists h.
  - cbn [snd] in Hl. destruct (loop_body_read_dict self d result k v h l acc)
      as (h1 & Hrun & Hread); [done|by eapply read_list_prefix|done|].
    assert (Hh1 : h0 `prefix_of` h1).
    { replace h1 with (loop_body id self result (k, v) h).2 by by rewrite Hrun.
      clear -Hh Hresult. revert h Hh.
      apply keeps_bind; [apply keeps_list_sorted|]. intros s.
      apply keeps_bind; [apply keeps_list_len|]. intros n.
      apply keeps_bind; [apply keeps_lift|]. intros stop.
      apply keeps_bind; [apply keeps_list_slice_upto|]. intros t.
      by apply keeps_dict_setitem. }
    destruct (IH h1 _ Hh1 Hread Hresult) as (h' & Hrun' & Hread').
    exists h'. split.
    + cbn [Store.for_each]. by rewrite (bind_run _ _ _ _ _ Hrun).
    + rewrite Hread'. cbn [foldl fst snd]. by rewrite Hl.
Qed.
(** *** The object layer computes what the value layer says *)

Lemma _resolve_simulation self r h m :
  Store.read_dict h r = Some m →
  ∃ h',
    match _resolve id self m with
    | Ok out =>
        Store._resolve id self r h = (Ok (length h), h')
        ∧ Store.read_dict h' (length h) = Some out
    | Raise e => Store._resolve id self r h = (Raise e, h')
    end.
Proof.
  intros (din & Hr & Hdin & ->)%read_dict_Some.
  set (f := λ v, default [] (Store.read_list h v)).
  rewrite _resolve_unfold.
  set (h1 := h ++ [Store.Dict ∅]).
  assert (Hh1 : h `prefix_of` h1) by by apply prefix_app_r.
  assert (Hitems : Store.dict_items r h1 = (Ok (map_to_list din), h1)).
  { apply dict_items_run. by eapply prefix_lookup_Some. }
  rewrite (bind_run _ _ _ _ _ Hitems).
  assert (Hempty : Store.read_dict h1 (length h) = Some ∅).
  { apply read_dict_Some. exists ∅. split_and!.
    - by apply list_lookup_middle.
    - apply map_Forall_empty.
    - by rewrite fmap_empty. }
  destruct self as [[d|]].
  - rewrite (_resolve_Some id _ d) by done.
    destruct (for_each_loop_body_Some {| _desired_num_of_artifact := Some d |}
                d h (length h) (map_to_list din)) with (h := h1) (acc := ∅ : gmap string (list Artifact))
      as (h' & Hrun & Hread); [done| |done|done|done|].
    { apply Forall_forall. intros [k v] Hkv%elem_of_map_to_list.
      by apply (Hdin k v). }
    exists h'. rewrite (bind_run _ _ _ _ _ Hrun). split; [done|].
    rewrite Hread.
    rewrite (foldl_insert_map_to_list (λ v, latest id d (f v))).
    by rewrite (right_id_L ∅ (∪)), <-map_fmap_compose.
  - rewrite _resolve_None by done.
    destruct (map_to_list din) as [|[k v] items] eqn:Hlist.
    + apply map_to_list_empty_iff in Hlist as ->.
      exists h1. rewrite fmap_empty, decide_True by done. by split.
    + assert (din !! k = Some v) as Hk.
      { apply elem_of_map_to_list. rewrite Hlist. by left. }
      destruct (Hdin k v Hk) as [l Hl%read_list_Some].
      rewrite decide_False.
      2:{ intros Hemp%fmap_empty_inv. by rewrite Hemp in Hk. }
      eexists. cbn [Store.for_each].
      erewrite bind_raise; [done|]. erewrite bind_raise; [done|].
      apply loop_body_None; [done|]. by eapply prefix_lookup_Some.
Qed.

Lemma values_read_list h (d : gmap string Store.ref) :
  map_Forall (λ _ v, is_Some (Store.read_list h v)) d →
  Forall (λ v, is_Some (Store.read_list h v)) (values d).
Proof.
  intros Hd. apply Forall_forall. intros v Hv. unfold values in Hv.
  apply list_elem_of_fmap in Hv as [[k v'] [-> Hkv%elem_of_map_to_list]].
  by apply (Hd k v').
Qed.

(** The test of [resolve_artifacts] reads lists and writes nothing. *)
Lemma all_m_min_count self h lists :
  Forall (λ v, is_Some (Store.read_list h v)) lists →
  Store.all_m (λ artifact_list,
      Store.bind (Store.list_len artifact_list) (λ n,
        Store.lift (py_ge n (_desired_num_of_artifact self))))
    lists h
  = (all (λ artifact_list,
            py_ge (len artifact_list) (_desired_num_of_artifact self))
       ((λ v, default [] (Store.read_list h v)) <$> lists), h).
Proof.
  induction 1 as [|v lists [l Hl] _ IH]; [done|].
  cbn [Store.all_m fmap list_fmap all]. rewrite Hl. cbn [default].
  apply read_list_Some in Hl.
  unfold Store.bind at 1.
  rewrite (bind_run _ _ _ _ _ (list_len_run _ _ _ Hl)). unfold Store.lift.
  destruct (py_ge _ _) as [[]|e]; cbn [result_bind]; [|done..].
  apply IH.
Qed.

(** The object layer refines the value layer: run on a heap whose input
    dict reads back as [m], the code returns or raises what the value
    layer computes from [m]. *)
Theorem resolve_artifacts_simulation self (store : MetadataStore) r h m :
  Store.read_dict h r = Some m →
  Store.read_result
    (Store.resolve_artifacts id self store r h).2
    (Store.resolve_artifacts id self store r h).1
  = Some (resolve_artifacts id self store m).
Proof.
  intros Hm. destruct (_resolve_simulation self r h m Hm) as [h' Hsim].
  unfold Store.resolve_artifacts, resolve_artifacts.
  destruct (_resolve id self m) as [out|e].
  - destruct Hsim as [Hrun Hread].
    rewrite (bind_run _ _ _ _ _ Hrun).
    pose proof Hread as (dres & Hres & Hdres & Hout)%read_dict_Some.
    rewrite (bind_run _ _ _ _ _ (dict_values_run h' _ dres Hres)).
    pose proof (all_m_min_count self h' (values dres)
                  (values_read_list _ _ Hdres)) as Hall.
    rewrite <-values_fmap, <-Hout in Hall. cbn [result_bind].
    destruct (all _ _) as [[]|e].
    + rewrite (bind_run _ _ _ _ _ Hall). simpl. by rewrite Hread.
    + by rewrite (bind_run _ _ _ _ _ Hall).
    + by rewrite (bind_raise _ _ _ _ _ Hall).
  - by rewrite (bind_raise _ _ _ _ _ Hsim).
Qed.
End store_facts.

(** * The claims *)

Section claims.
Context {Artifact MetadataStore : Type}.
Variable id : Artifact → Z.
Implicit Types (store : MetadataStore) (d : Z).
Implicit Types (input_dict : gmap string (list Artifact)).

(** C1. For a desired count [d >= 1], [resolve_artifacts] returns a
    mapping (and not [None]) if and only if every channel of the input
    holds at least [d] artifacts; in that case every channel's output
    list has exactly [d] elements; and as soon as one channel holds fewer
    than [d] artifacts the whole result is [None], whatever the other
    channels hold. *)
Theorem resolve_artifacts_all_or_nothing store input_dict d :
  1 ≤ d →
  let r := resolve_artifacts id (__init__ (Passed (Some d))) store input_dict in
  ((∃ res, r = Ok (Some res))
     ↔ ∀ k l, input_dict !! k = Some l → d ≤ len l)
  ∧ (∀ res, r = Ok (Some res) →
       ∀ k l, input_dict !! k = Some l →
         ∃ out, res !! k = Some out ∧ len out = d)
  ∧ ((∃ k l, input_dict !! k = Some l ∧ len l < d) → r = Ok None).
Proof.
  intros Hd r. subst r.
  rewrite (resolve_artifacts_Some id _ d) by done.
  pose proof (min_count_met_iff id d input_dict ltac:(lia)) as Hiff.
  destruct (forallb _ _) eqn:Hall.
  - assert (Hmet : ∀ k l, input_dict !! k = Some l → d ≤ len l)
      by by apply Hiff.
    split_and!.
    + split; [done|]. eauto.
    + intros res [= <-] k l Hk. exists (latest id d l).
      rewrite lookup_fmap, Hk. split; [done|].
      rewrite latest_len by lia. specialize (Hmet k l Hk). lia.
    + intros (k & l & Hk & Hlt). specialize (Hmet k l Hk). lia.
  - split_and!.
    + split; [by intros [res ?]|].
      intros Hmet. apply Hiff in Hmet. congruence.
    + intros res [=].
    + done.
Qed.

(** C3. For every channel, the list [_resolve] produces is in descending
    order of [id], and artifacts with the same [id] stand in the order
    they had in the input list. *)
Theorem resolve_sorted_stable input_dict d :
  ∃ res, _resolve id (__init__ (Passed (Some d))) input_dict = Ok res ∧
    ∀ k l, input_dict !! k = Some l →
      ∃ out, res !! k = Some out
        ∧ StronglySorted (desc id) out
        ∧ ∀ v, filter (λ a, id a = v) out
                 `prefix_of` filter (λ a, id a = v) l.
Proof.
  exists (latest id d <$> input_dict). split; [by apply _resolve_Some|].
  intros k l Hk. exists (latest id d l). rewrite lookup_fmap, Hk.
  split; [done|].
  destruct (latest_prefix id d l) as [rest Hrest]. split.
  - pose proof (sorted_desc id l) as Hs. rewrite Hrest in Hs.
    by apply StronglySorted_app_1_l in Hs.
  - intros v. rewrite <-(sorted_filter_key id true v l), Hrest, filter_app.
    by eexists.
Qed.

(** C4. For every channel, the output list is the first
    [min(len(sorted list), d)] elements of the descending-sorted input
    list, so its length never exceeds [d]. *)
Theorem resolve_truncates input_dict d :
  0 ≤ d →
  ∃ res, _resolve id (__init__ (Passed (Some d))) input_dict = Ok res ∧
    ∀ k l, input_dict !! k = Some l →
      ∃ out, res !! k = Some out
        ∧ out = take (Z.to_nat (Z.min (len (sorted id true l)) d))
                     (sorted id true l)
        ∧ len out ≤ d.
Proof.
  intros Hd.
  exists (latest id d <$> input_dict). split; [by apply _resolve_Some|].
  intros k l Hk. exists (latest id d l). rewrite lookup_fmap, Hk.
  split; [done|]. split; [by apply latest_take|].
  rewrite latest_len by done. lia.
Qed.

(** C5. Every artifact of a channel's output list is an element of that
    channel's input list, and the output is a sub-multiset of the input:
    for any property, the output holds no more artifacts having it than
    the input does. *)
Theorem resolve_no_fabrication input_dict d :
  ∃ res, _resolve id (__init__ (Passed (Some d))) input_dict = Ok res ∧
    ∀ k l, input_dict !! k = Some l →
      ∃ out, res !! k = Some out
        ∧ (∀ a, a ∈ out → a ∈ l)
        ∧ out ⊆+ l
        ∧ ∀ (P : Artifact → Prop) (HP : ∀ a, Decision (P a)),
            (length (filter P out) ≤ length (filter P l))%nat.
Proof.
  exists (latest id d <$> input_dict). split; [by apply _resolve_Some|].
  intros k l Hk. exists (latest id d l). rewrite lookup_fmap, Hk.
  split; [done|].
  destruct (latest_prefix id d l) as [rest Hrest].
  pose proof (sorted_Permutation id true l) as Hperm. rewrite Hrest in Hperm.
  assert (Hsub : latest id d l ⊆+ l).
  { transitivity (latest id d l ++ rest).
    - by apply submseteq_inserts_r.
    - by apply Permutation_submseteq. }
  split_and!; [|done|].
  - intros a Ha. by eapply elem_of_submseteq.
  - intros P HP.
    rewrite <-(Permutation_length (filter_Permutation P _ _ Hperm)).
    rewrite filter_app, length_app. lia.
Qed.

(** C9. On the empty mapping and any desired count [d >= 1],
    [resolve_artifacts] returns the empty mapping, not [None]. *)
Theorem resolve_artifacts_empty store d :
  1 ≤ d →
  resolve_artifacts id (__init__ (Passed (Some d))) store
    (∅ : gmap string (list Artifact))
  = Ok (Some ∅).
Proof.
  intros _. rewrite (resolve_artifacts_Some id _ d) by done.
  rewrite fmap_empty. unfold values. by rewrite map_to_list_empty.
Qed.

(** C10. Whenever [resolve_artifacts] returns a mapping, its channel keys
    are exactly the channel keys of the input. *)
Theorem resolve_artifacts_same_keys self store input_dict res :
  resolve_artifacts id self store input_dict = Ok (Some res) →
  dom res = dom input_dict.
Proof.
  destruct self as [[d|]].
  - rewrite (resolve_artifacts_Some id _ d) by done.
    destruct (forallb _ _); intros [= <-]. apply dom_fmap_L.
  - rewrite resolve_artifacts_None by done.
    case_decide as Hemp; intros [= <-]. by rewrite Hemp.
Qed.
(** C2, as the code has it.  No invalid-configuration error exists: a
    desired count that is left out is replaced by the default 1 when the
    object is built; with 0 the result is a mapping whose every list is
    empty; with a negative count [d] the result is a mapping whose every
    list is the descending-sorted input list without its last [-d]
    elements; and only [None] makes the call raise, a [TypeError], and only
    when the input mapping has a channel. *)
Theorem nonpositive_count_is_not_rejected store input_dict :
  __init__ Omitted = __init__ (Passed (Some 1))
  ∧ resolve_artifacts id (__init__ (Passed (Some 0))) store input_dict
    = Ok (Some ((λ _, []) <$> input_dict))
  ∧ (∀ d, d < 0 →
       resolve_artifacts id (__init__ (Passed (Some d))) store input_dict
       = Ok (Some ((λ l, take (length l - Z.to_nat (- d))%nat
                              (sorted id true l)) <$> input_dict)))
  ∧ resolve_artifacts id (__init__ (Passed None)) store input_dict
    = if decide (input_dict = ∅) then Ok (Some ∅) else Raise TypeError.
Proof.
  split_and!.
  - done.
  - rewrite (resolve_artifacts_Some id _ 0) by done.
    rewrite min_count_met_nonpos by done. do 2 f_equal.
    apply map_fmap_ext. intros k l _. apply latest_zero.
  - intros d Hd. rewrite (resolve_artifacts_Some id _ d) by done.
    rewrite min_count_met_nonpos by lia. do 2 f_equal.
    apply map_fmap_ext. intros k l _. by apply latest_neg.
  - by apply resolve_artifacts_None.
Qed.
End claims.

Section store_claims.
Context {Artifact MetadataStore : Type}.
Variable id : Artifact → Z.
Implicit Types (store : MetadataStore) (h : @Store.heap Artifact).
Implicit Types (m : gmap string (list Artifact)).

Lemma read_result_prefix h h' (x : result (option Store.ref)) y :
  h `prefix_of` h' → Store.read_result h x = Some y →
  Store.read_result h' x = Some y.
Proof.
  intros Hh. destruct x as [[d|]|e]; simpl; [|done..].
  destruct (Store.read_dict h d) as [m|] eqn:Hd; [|done].
  by rewrite (read_dict_prefix h h' d m).
Qed.

(** C6. Two invocations on the same input value and with the same desired
    count yield the same result, as values: wherever the two input
    mappings live ([h], [r] and [h'], [r']), and in particular when the
    second invocation follows the first on the very same objects; the
    object returned by the first invocation still holds its value after
    the second. *)
Theorem resolve_artifacts_deterministic self store h r h' r' m :
  Store.read_dict h r = Some m →
  Store.read_dict h' r' = Some m →
  let first := Store.resolve_artifacts id self store r h in
  let other := Store.resolve_artifacts id self store r' h' in
  let again := Store.resolve_artifacts id self store r first.2 in
  Store.read_result first.2 first.1 = Some (resolve_artifacts id self store m)
  ∧ Store.read_result other.2 other.1 = Store.read_result first.2 first.1
  ∧ Store.read_result again.2 again.1 = Store.read_result first.2 first.1
  ∧ Store.read_result again.2 first.1 = Store.read_result first.2 first.1.
Proof.
  intros Hm Hm' first other again.
  assert (Hfirst : Store.read_result first.2 first.1
                   = Some (resolve_artifacts id self store m))
    by by apply resolve_artifacts_simulation.
  assert (Hkept : Store.read_dict first.2 r = Some m).
  { eapply read_dict_prefix; [|done].
    by apply (keeps_resolve_artifacts id h self store r h). }
  split_and!.
  - done.
  - rewrite Hfirst. by apply resolve_artifacts_simulation.
  - rewrite Hfirst. by apply resolve_artifacts_simulation.
  - rewrite Hfirst. eapply read_result_prefix; [|done].
    by apply (keeps_resolve_artifacts id first.2 self store r first.2).
Qed.

(** C7. [resolve_artifacts] writes to none of the objects that exist when
    it is called: every reference holds afterwards the object it held
    before, so the input mapping and every artifact list in it are
    unchanged; whatever the code sorts, slices and fills is newly
    allocated. *)
Theorem resolve_artifacts_leaves_inputs self store h r :
  let h' := (Store.resolve_artifacts id self store r h).2 in
  h `prefix_of` h'
  ∧ (∀ v o, h !! v = Some o → h' !! v = Some o)
  ∧ (∀ m, Store.read_dict h r = Some m → Store.read_dict h' r = Some m).
Proof.
  intros h'.
  assert (Hh : h `prefix_of` h')
    by by apply (keeps_resolve_artifacts id h self store r h).
  split_and!; [done| |].
  - intros v o Hv. by eapply prefix_lookup_Some.
  - intros m Hm. by eapply read_dict_prefix.
Qed.
End store_claims.

(** ** The claims on concrete inputs *)

(** C8. The two examples of the specification. *)
Theorem spec_examples :
  resolve_artifacts test_id (__init__ (Passed (Some 1))) ()
    {[ "model" := [with_id 3; with_id 7; with_id 5] ]}
  = Ok (Some {[ "model" := [with_id 7] ]})
  ∧ resolve_artifacts test_id (__init__ (Passed (Some 2))) ()
      {[ "model" := [with_id 3; with_id 7] ]}
    = Ok (Some {[ "model" := [with_id 7; with_id 3] ]}).
Proof. split; vm_compute; reflexivity. Qed.

(** The two unresolved examples of the specification: one short channel
    among two, and a channel with no artifact. *)
Example spec_examples_unresolved :
  resolve_artifacts test_id (__init__ (Passed (Some 2))) ()
    {[ "model" := [with_id 3]; "data" := [with_id 1; with_id 2] ]}
  = Ok None
  ∧ resolve_artifacts test_id (__init__ (Passed (Some 1))) ()
      {[ "model" := ([] : list test_artifact) ]}
    = Ok None.
Proof. split; vm_compute; reflexivity. Qed.

(** Artifacts with the same id keep their input order, also under
    [reverse=True]. *)
Example sorted_stable_example :
  sorted test_id true
    [TestArtifact 1 "a"; TestArtifact 2 "b"; TestArtifact 1 "c";
     TestArtifact 2 "d"]
  = [TestArtifact 2 "b"; TestArtifact 2 "d"; TestArtifact 1 "a";
     TestArtifact 1 "c"].
Proof. reflexivity. Qed.

(** C2, as stated, fails: with a desired count of 0, of -1, or left out,
    the call signals no error and returns a mapping. *)
Lemma nonpositive_count_counterexample :
  resolve_artifacts test_id (__init__ (Passed (Some 0))) ()
    {[ "model" := [with_id 3; with_id 7; with_id 5] ]}
  = Ok (Some {[ "model" := [] ]})
  ∧ resolve_artifacts test_id (__init__ (Passed (Some (-1)))) ()
      {[ "model" := [with_id 3; with_id 7; with_id 5] ]}
    = Ok (Some {[ "model" := [with_id 7; with_id 5] ]})
  ∧ resolve_artifacts test_id (__init__ Omitted) ()
      {[ "model" := [with_id 3; with_id 7; with_id 5] ]}
    = Ok (Some {[ "model" := [with_id 7] ]})
  ∧ ¬ signals_error
        (resolve_artifacts test_id (__init__ (Passed (Some 0))) ()
           {[ "model" := [with_id 3; with_id 7; with_id 5] ]})
  ∧ ¬ signals_error
        (resolve_artifacts test_id (__init__ (Passed (Some (-1)))) ()
           {[ "model" := [with_id 3; with_id 7; with_id 5] ]})
  ∧ ¬ signals_error
        (resolve_artifacts test_id (__init__ Omitted) ()
           {[ "model" := [with_id 3; with_id 7; with_id 5] ]}).
Proof.
  assert (H0 : resolve_artifacts test_id (__init__ (Passed (Some 0))) ()
                 {[ "model" := [with_id 3; with_id 7; with_id 5] ]}
               = Ok (Some {[ "model" := [] ]}))
    by (vm_compute; reflexivity).
  assert (H1 : resolve_artifacts test_id (__init__ (Passed (Some (-1)))) ()
                 {[ "model" := [with_id 3; with_id 7; with_id 5] ]}
               = Ok (Some {[ "model" := [with_id 7; with_id 5] ]}))
    by (vm_compute; reflexivity).
  assert (H2 : resolve_artifacts test_id (__init__ Omitted) ()
                 {[ "model" := [with_id 3; with_id 7; with_id 5] ]}
               = Ok (Some {[ "model" := [with_id 7] ]}))
    by (vm_compute; reflexivity).
  exact (conj H0 (conj H1 (conj H2
    (conj (Ok_not_signals_error _ _ H0)
       (conj (Ok_not_signals_error _ _ H1)
          (Ok_not_signals_error _ _ H2)))))).
Qed.

(** ** The theorems at work on concrete inputs *)

(** C1 on [example_input] with a desired count of 2: its "data" channel
    holds one artifact only. *)
Lemma resolve_artifacts_all_or_nothing_witness :
  1 ≤ 2
  ∧ ((∃ res, resolve_artifacts test_id (__init__ (Passed (Some 2))) ()
               example_input = Ok (Some res))
       ↔ ∀ k l, example_input !! k = Some l → 2 ≤ len l)
  ∧ ((∃ k l, example_input !! k = Some l ∧ len l < 2) →
       resolve_artifacts test_id (__init__ (Passed (Some 2))) ()
         example_input = Ok None).
Proof.
  split; [lia|].
  pose proof (resolve_artifacts_all_or_nothing test_id () example_input 2
                ltac:(lia)) as (Hiff & _ & Hnone).
  split; [exact Hiff|exact Hnone].
Defined.

(** C4 on [example_input] with a desired count of 2. *)
Lemma resolve_truncates_witness :
  0 ≤ 2
  ∧ ∃ res, _resolve test_id (__init__ (Passed (Some 2))) example_input = Ok res
      ∧ ∀ k l, example_input !! k = Some l →
          ∃ out, res !! k = Some out
            ∧ out = take (Z.to_nat (Z.min (len (sorted test_id true l)) 2))
                         (sorted test_id true l)
            ∧ len out ≤ 2.
Proof.
  split; [lia|]. apply (resolve_truncates test_id example_input 2). lia.
Defined.

(** C9 with a desired count of 3. *)
Lemma resolve_artifacts_empty_witness :
  1 ≤ 3
  ∧ resolve_artifacts test_id (__init__ (Passed (Some 3))) ()
      (∅ : gmap string (list test_artifact))
    = Ok (Some ∅).
Proof.
  split; [lia|]. apply (resolve_artifacts_empty test_id () 3). lia.
Defined.

(** C10 on [example_input] with the default desired count. *)
Lemma resolve_artifacts_same_keys_witness :
  resolve_artifacts test_id (__init__ Omitted) () example_input
  = Ok (Some {[ "model" := [with_id 7]; "data" := [with_id 1] ]})
  ∧ dom ({[ "model" := [with_id 7]; "data" := [with_id 1] ]}
           : gmap string (list test_artifact))
    = dom example_input.
Proof.
  assert (H : resolve_artifacts test_id (__init__ Omitted) () example_input
              = Ok (Some {[ "model" := [with_id 7]; "data" := [with_id 1] ]}))
    by (vm_compute; reflexivity).
  split; [exact H|].
  exact (resolve_artifacts_same_keys test_id (__init__ Omitted) ()
           example_input _ H).
Defined.

(** C6 on the two example heaps, which hold [example_input] at different
    references. *)
Lemma resolve_artifacts_deterministic_witness :
  Store.read_dict example_heap 2%nat = Some example_input
  ∧ Store.read_dict example_heap' 3%nat = Some example_input
  ∧ let first :=
      Store.resolve_artifacts test_id (__init__ Omitted) () 2%nat example_heap in
    let other :=
      Store.resolve_artifacts test_id (__init__ Omitted) () 3%nat example_heap' in
    let again :=
      Store.resolve_artifacts test_id (__init__ Omitted) () 2%nat first.2 in
    Store.read_result other.2 other.1 = Store.read_result first.2 first.1
    ∧ Store.read_result again.2 again.1 = Store.read_result first.2 first.1.
Proof.
  assert (H : Store.read_dict example_heap 2%nat = Some example_input)
    by (vm_compute; reflexivity).
  assert (H' : Store.read_dict example_heap' 3%nat = Some example_input)
    by (vm_compute; reflexivity).
  split; [exact H|]. split; [exact H'|].
  pose proof (resolve_artifacts_deterministic test_id (__init__ Omitted) ()
                example_heap 2%nat example_heap' 3%nat example_input H H')
    as (_ & Hother & Hagain & _).
  split; [exact Hother|exact Hagain].
Defined.

(** * Further properties of the strategy *)

(** ** More on the built-ins *)

Section more_builtins_facts.
Context {A : Type} (key : A → Z).

(** Sorting a list that is already in descending order changes nothing. *)
Lemma sorted_of_desc l :
  StronglySorted (desc key) l → sorted key true l = l.
Proof.
  induction 1 as [|x l Hl IH Hx]; simpl; [done|].
  rewrite IH. destruct Hx as [|y l' Hy _]; simpl; [done|].
  unfold desc in Hy. by destruct (Z.ltb_spec (key x) (key y)); [lia|].
Qed.

Lemma desc_NoDup_strictly_desc l :
  StronglySorted (desc key) l → NoDup (key <$> l) →
  StronglySorted (strictly_desc key) l.
Proof.
  induction 1 as [|x l Hl IH Hx]; [constructor|].
  rewrite fmap_cons, NoDup_cons. intros [Hnotin Hnodup].
  constructor; [by apply IH|].
  apply Forall_forall. intros y Hy.
  rewrite Forall_forall in Hx. specialize (Hx y Hy).
  unfold desc in Hx. unfold strictly_desc.
  assert (key y ≠ key x); [|lia].
  intros Heq. apply Hnotin. rewrite <-Heq. by apply list_elem_of_fmap_2.
Qed.

Lemma sorted_strictly_desc l :
  NoDup (key <$> l) → StronglySorted (strictly_desc key) (sorted key true l).
Proof.
  intros Hnodup. apply desc_NoDup_strictly_desc; [apply sorted_desc|].
  by rewrite (sorted_Permutation key true l).
Qed.

(** With pairwise distinct keys the sorted list does not depend on the
    order of the input. *)
Lemma sorted_Permutation_eq l l' :
  l ≡ₚ l' → NoDup (key <$> l) → sorted key true l = sorted key true l'.
Proof.
  intros Hperm Hnodup.
  apply (StronglySorted_unique_strong (strictly_desc key)).
  - unfold strictly_desc. intros; lia.
  - by apply sorted_strictly_desc.
  - apply sorted_strictly_desc. by rewrite <-Hperm.
  - by rewrite !sorted_Permutation.
Qed.
End more_builtins_facts.

(** ** The strategy on values *)

Section further_strategy_facts.
Context {Artifact MetadataStore : Type}.
Variable id : Artifact → Z.
Implicit Types (store : MetadataStore) (d : Z).
Implicit Types (input_dict : gmap string (list Artifact)).

Lemma latest_idemp d l : 0 ≤ d → latest id d (latest id d l) = latest id d l.
Proof.
  intros Hd. rewrite (latest_take id d (latest id d l)) by done.
  assert (Hs : StronglySorted (desc id) (latest id d l)).
  { destruct (latest_prefix id d l) as [rest Hrest].
    pose proof (sorted_desc id l) as Hs. rewrite Hrest in Hs.
    by apply StronglySorted_app_1_l in Hs. }
  rewrite (sorted_of_desc id _ Hs). apply take_ge.
  pose proof (latest_len id d l Hd) as Hlen. unfold len in *. lia.
Qed.

Lemma latest_le d d' l :
  0 ≤ d' ≤ d → latest id d' l = take (Z.to_nat d') (latest id d l).
Proof.
  intros Hd. rewrite !latest_take by lia. rewrite take_take.
  f_equal. lia.
Qed.

Lemma min_count_met_union d (m1 m2 : gmap string (list Artifact)) :
  m1 ##ₘ m2 →
  forallb (λ l, d <=? len l) (values (latest id d <$> m1 ∪ m2))
  = forallb (λ l, d <=? len l) (values (latest id d <$> m1))
    && forallb (λ l, d <=? len l) (values (latest id d <$> m2)).
Proof.
  intros Hdisj. apply Bool.eq_iff_eq_true.
  rewrite andb_true_iff, !forallb_values. split.
  - intros H. split; intros k out Hk; apply (H k out);
      rewrite map_fmap_union; apply lookup_union_Some;
      [by apply map_disjoint_fmap|by left|by apply map_disjoint_fmap|by right].
  - intros [H1 H2] k out. rewrite map_fmap_union.
    intros [Hk|Hk]%lookup_union_Some; [by eapply H1|by eapply H2|].
    by apply map_disjoint_fmap.
Qed.

(** X1. Of every channel [_resolve] keeps the artifacts with the largest
    ids: the input list is the output list together with the artifacts
    left out, and no artifact left out has a larger id than one kept. *)
Theorem resolve_keeps_largest_ids input_dict d :
  ∃ res, _resolve id (__init__ (Passed (Some d))) input_dict = Ok res ∧
    ∀ k l, input_dict !! k = Some l →
      ∃ out rest, res !! k = Some out
        ∧ out ++ rest ≡ₚ l
        ∧ ∀ a b, a ∈ out → b ∈ rest → id b ≤ id a.
Proof.
  exists (latest id d <$> input_dict). split; [by apply _resolve_Some|].
  intros k l Hk. destruct (latest_prefix id d l) as [rest Hrest].
  exists (latest id d l), rest. rewrite lookup_fmap, Hk. split; [done|].
  split.
  - by rewrite <-Hrest, sorted_Permutation.
  - pose proof (sorted_desc id l) as Hs. rewrite Hrest in Hs.
    apply StronglySorted_app in Hs as (Hcross & _ & _).
    intros a b Ha Hb. by apply (Hcross a b).
Qed.

(** X2. Built without a desired count, the strategy resolves every channel
    to exactly one artifact: one of the input list, whose id is the largest
    of the list, and among the artifacts with that id the first of the
    input list. *)
Theorem default_resolves_to_latest store input_dict res :
  resolve_artifacts id (__init__ Omitted) store input_dict = Ok (Some res) →
  ∀ k l, input_dict !! k = Some l →
    ∃ a, res !! k = Some [a]
      ∧ a ∈ l
      ∧ (∀ b, b ∈ l → id b ≤ id a)
      ∧ head (filter (λ b, id b = id a) l) = Some a.
Proof.
  rewrite (resolve_artifacts_Some id _ 1) by done.
  destruct (forallb _ _) eqn:Hall; intros [= <-] k l Hk.
  pose proof (proj1 (min_count_met_iff id 1 input_dict ltac:(lia)) Hall k l Hk)
    as Hmet.
  rewrite lookup_fmap, Hk. cbn [fmap option_fmap option_map].
  rewrite latest_take by lia.
  pose proof (sorted_Permutation id true l) as Hperm.
  pose proof (sorted_desc id l) as Hdesc.
  pose proof (sorted_filter_key id true (A:=Artifact)) as Hstable.
  pose proof (sorted_length id true l) as Hlen.
  destruct (sorted id true l) as [|a s] eqn:Hsorted.
  { unfold len in Hmet. simpl in Hlen. lia. }
  exists a. split_and!.
  - f_equal. rewrite Z.min_r by (unfold len; simpl; lia). done.
  - rewrite <-Hperm. by left.
  - intros b Hb. rewrite <-Hperm in Hb.
    apply StronglySorted_inv in Hdesc as [_ Hdesc].
    rewrite Forall_forall in Hdesc.
    apply elem_of_cons in Hb as [->|Hb]; [done|]. by apply Hdesc.
  - rewrite <-(Hstable (id a) l), Hsorted, filter_cons.
    by rewrite decide_True.
Qed.

(** X3. When the ids of a channel's input list are pairwise distinct, the
    output list of [_resolve] is in strictly descending order of id. *)
Theorem resolve_strictly_descending input_dict d :
  ∃ res, _resolve id (__init__ (Passed (Some d))) input_dict = Ok res ∧
    ∀ k l, input_dict !! k = Some l → NoDup (id <$> l) →
      ∃ out, res !! k = Some out ∧ StronglySorted (strictly_desc id) out.
Proof.
  exists (latest id d <$> input_dict). split; [by apply _resolve_Some|].
  intros k l Hk Hnodup. exists (latest id d l). rewrite lookup_fmap, Hk.
  split; [done|]. destruct (latest_prefix id d l) as [rest Hrest].
  pose proof (sorted_strictly_desc id l Hnodup) as Hs. rewrite Hrest in Hs.
  by apply StronglySorted_app_1_l in Hs.
Qed.

(** X4. When the ids within every channel are pairwise distinct, the
    result does not depend on the order of the input lists: two mappings
    with the same channels whose lists are permutations of each other give
    the same result. *)
Theorem resolve_artifacts_order_independent self store
    (input_dict input_dict' : gmap string (list Artifact)) :
  map_Forall2 (λ _ l l', l ≡ₚ l') input_dict input_dict' →
  map_Forall (λ _ l, NoDup (id <$> l)) input_dict →
  resolve_artifacts id self store input_dict
  = resolve_artifacts id self store input_dict'.
Proof.
  intros Hperm Hnodup. destruct self as [[d|]].
  - rewrite !(resolve_artifacts_Some id _ d) by done.
    assert (latest id d <$> input_dict = latest id d <$> input_dict') as ->;
      [|done].
    apply map_eq. intros k. rewrite !lookup_fmap.
    specialize (Hperm k). specialize (Hnodup k).
    destruct Hperm as [l l' Hl|]; [|done]. simpl. f_equal.
    unfold latest. cbv zeta.
    by rewrite (sorted_Permutation_eq id l l' Hl (Hnodup l eq_refl)).
  - rewrite !resolve_artifacts_None by done.
    assert (input_dict = ∅ ↔ input_dict' = ∅) as Hiff.
    { split; intros ->.
      - by eapply map_Forall2_empty_inv_l.
      - apply map_empty. intros k. specialize (Hperm k).
        rewrite lookup_empty in Hperm. by inversion Hperm. }
    destruct Hiff as [H1 H2].
    case_decide as He; case_decide as He'; [done| | |done].
    + by specialize (H1 He).
    + by specialize (H2 He').
Qed.

(** X5. With a desired count [d >= 0] a returned mapping is a fixed point:
    resolving it again returns it unchanged. *)
Theorem resolve_artifacts_idempotent store input_dict d res :
  0 ≤ d →
  resolve_artifacts id (__init__ (Passed (Some d))) store input_dict
  = Ok (Some res) →
  resolve_artifacts id (__init__ (Passed (Some d))) store res = Ok (Some res).
Proof.
  intros Hd. rewrite !(resolve_artifacts_Some id _ d) by done.
  destruct (forallb _ _) eqn:Hall; intros [= <-].
  assert (latest id d <$> (latest id d <$> input_dict)
          = latest id d <$> input_dict) as ->.
  { rewrite <-map_fmap_compose. apply map_fmap_ext. intros k l _.
    by apply latest_idemp. }
  by rewrite Hall.
Qed.

(** X6. Asking for fewer artifacts never fails where asking for more
    succeeds, and the results are nested: if the call returns a mapping
    with desired count [d], it returns one for every [0 <= d' <= d], whose
    lists are the first [d'] elements of the lists for [d]. *)
Theorem resolve_artifacts_monotone store input_dict d d' res :
  0 ≤ d' ≤ d →
  resolve_artifacts id (__init__ (Passed (Some d))) store input_dict
  = Ok (Some res) →
  resolve_artifacts id (__init__ (Passed (Some d'))) store input_dict
  = Ok (Some (take (Z.to_nat d') <$> res)).
Proof.
  intros Hd. rewrite (resolve_artifacts_Some id _ d) by done.
  rewrite (resolve_artifacts_Some id _ d') by done.
  destruct (forallb _ (values (latest id d <$> _))) eqn:Hall; intros [= <-].
  pose proof (proj1 (min_count_met_iff id d input_dict ltac:(lia)) Hall)
    as Hmet.
  assert (forallb (λ l, d' <=? len l) (values (latest id d' <$> input_dict))
          = true) as ->.
  { apply (min_count_met_iff id d' input_dict ltac:(lia)).
    intros k l Hk. specialize (Hmet k l Hk). lia. }
  do 2 f_equal. rewrite <-map_fmap_compose.
  apply map_fmap_ext. intros k l _. by apply latest_le.
Qed.

(** X7. Channels are resolved independently and gated together: on the
    union of two mappings with no channel in common, the call returns the
    union of the two results when both parts resolve, and [None] when one
    of them does not. *)
Theorem resolve_artifacts_union store d
    (m1 m2 : gmap string (list Artifact)) :
  m1 ##ₘ m2 →
  resolve_artifacts id (__init__ (Passed (Some d))) store (m1 ∪ m2)
  = match resolve_artifacts id (__init__ (Passed (Some d))) store m1,
          resolve_artifacts id (__init__ (Passed (Some d))) store m2 with
    | Ok (Some res1), Ok (Some res2) => Ok (Some (res1 ∪ res2))
    | Ok _, Ok _ => Ok None
    | Raise e, _ | _, Raise e => Raise e
    end.
Proof.
  intros Hdisj. rewrite !(resolve_artifacts_Some id _ d) by done.
  rewrite min_count_met_union by done.
  destruct (forallb _ (values (latest id d <$> m1)));
    destruct (forallb _ (values (latest id d <$> m2))); simpl; try done.
  by rewrite map_fmap_union.
Qed.

(** X8. The call raises exactly when the desired number is [None] and the
    input mapping has a channel; with an integer, whatever its sign, it
    returns. *)
Theorem resolve_artifacts_raises_iff self store input_dict :
  signals_error (resolve_artifacts id self store input_dict)
  ↔ _desired_num_of_artifact self = None ∧ input_dict ≠ ∅.
Proof.
  destruct self as [[d|]]; simpl.
  - rewrite (resolve_artifacts_Some id _ d) by done. split.
    + by intros [e ?].
    + by intros [? _].
  - rewrite resolve_artifacts_None by done. case_decide as Hemp; split.
    + by intros [e ?].
    + by intros [_ ?].
    + done.
    + intros _. by exists TypeError.
Qed.
End further_strategy_facts.

(** ** The strategy on objects *)

Section further_store_facts.
Context {Artifact MetadataStore : Type}.
Variable id : Artifact → Z.
Implicit Types (store : MetadataStore) (h : @Store.heap Artifact).
Implicit Types (r v : Store.ref).

Lemma bind_Ok_inv {A B} (m : @Store.M Artifact A) (k : A → Store.M B)
    h b h' :
  Store.bind m k h = (Ok b, h') →
  ∃ a h1, m h = (Ok a, h1) ∧ k a h1 = (Ok b, h').
Proof.
  unfold Store.bind. destruct (m h) as [[a|e] h1]; [|done]. eauto.
Qed.

Lemma keeps_run {A} h0 (m : @Store.M Artifact A) h x h' :
  keeps h0 m → h0 `prefix_of` h → m h = (x, h') → h0 `prefix_of` h'.
Proof. intros Hm Hh Hrun. specialize (Hm h Hh). by rewrite Hrun in Hm. Qed.

(** What the loop keeps true of the dict it fills: every stored reference
    was allocated after [h0] and after the dict itself, lies in the heap,
    and is stored under one key only. *)
Lemma for_each_loop_body_fresh self d h0 result items :
  _desired_num_of_artifact self = Some d →
  Forall (λ kv, is_Some (Store.read_list h0 kv.2)) items →
  (length h0 ≤ result)%nat →
  ∀ h dres,
    h0 `prefix_of` h →
    h !! result = Some (Store.Dict dres) →
    map_Forall (λ _ v, (length h0 < v < length h)%nat) dres →
    (∀ k1 k2 v, dres !! k1 = Some v → dres !! k2 = Some v → k1 = k2) →
    ∃ h' dres',
      Store.for_each items (loop_body id self result) h = (Ok (), h')
      ∧ h0 `prefix_of` h'
      ∧ h' !! result = Some (Store.Dict dres')
      ∧ map_Forall (λ _ v, (length h0 < v < length h')%nat) dres'
      ∧ (∀ k1 k2 v, dres' !! k1 = Some v → dres' !! k2 = Some v → k1 = k2).
Proof.
  intros Hd Hitems Hresult.
  induction Hitems as [|[k v] items [l Hl] _ IH];
    intros h dres Hh Hdict Hfresh Hinj.
  - by exists h, dres.
  - cbn [snd] in Hl. apply read_list_Some in Hl.
    pose proof (prefix_lookup_Some _ _ _ _ Hl Hh) as Hv.
    pose proof (loop_body_Some id self d result k v h l dres Hd Hv Hdict)
      as Hrun.
    set (h1 := <[result := Store.Dict (<[k := S (length h)]> dres)]>
                 ((h ++ [Store.List (sorted id true l)])
                    ++ [Store.List (latest id d l)])) in Hrun.
    assert (Hh1 : h0 `prefix_of` h1).
    { replace h1 with (loop_body id self result (k, v) h).2 by by rewrite Hrun.
      clear -Hh Hresult. revert h Hh.
      apply keeps_bind; [apply keeps_list_sorted|]. intros s.
      apply keeps_bind; [apply keeps_list_len|]. intros n.
      apply keeps_bind; [apply keeps_lift|]. intros stop.
      apply keeps_bind; [apply keeps_list_slice_upto|]. intros t.
      by apply keeps_dict_setitem. }
    assert (Hlen1 : length h1 = S (S (length h))).
    { unfold h1. unfold Store.heap in *.
      rewrite length_insert, !length_app. simpl. lia. }
    assert (Hdict1 : h1 !! result
                     = Some (Store.Dict (<[k := S (length h)]> dres))).
    { unfold h1. unfold Store.heap in *. apply list_lookup_insert_eq.
      rewrite !length_app. apply lookup_lt_Some in Hdict. lia. }
    assert (Hfresh1 : map_Forall (λ _ v, (length h0 < v < length h1)%nat)
                        (<[k := S (length h)]> dres)).
    { apply map_Forall_insert_2.
      - apply prefix_length in Hh. lia.
      - intros k' v' Hk'. specialize (Hfresh k' v' Hk'). simpl in Hfresh. lia. }
    assert (Hinj1 : ∀ k1 k2 v',
              <[k := S (length h)]> dres !! k1 = Some v' →
              <[k := S (length h)]> dres !! k2 = Some v' → k1 = k2).
    { intros k1 k2 v'. rewrite !lookup_insert.
      repeat case_decide; subst; try done.
      - intros [= <-] Hk2. specialize (Hfresh k2 _ Hk2). simpl in Hfresh. lia.
      - intros Hk1 [= <-]. specialize (Hfresh k1 _ Hk1). simpl in Hfresh. lia.
      - apply Hinj. }
    destruct (IH h1 _ Hh1 Hdict1 Hfresh1 Hinj1) as (h' & dres' & Hrun' & ?).
    exists h', dres'. split; [|done].
    cbn [Store.for_each]. by rewrite (bind_run _ _ _ _ _ Hrun).
Qed.

Lemma _resolve_fresh self r h m rr h' :
  Store.read_dict h r = Some m →
  Store._resolve id self r h = (Ok rr, h') →
  rr = length h
  ∧ ∃ dres, h' !! rr = Some (Store.Dict dres)
      ∧ map_Forall (λ _ v, (length h < v < length h')%nat) dres
      ∧ (∀ k1 k2 v, dres !! k1 = Some v → dres !! k2 = Some v → k1 = k2).
Proof.
  intros (din & Hr & Hdin & ->)%read_dict_Some.
  rewrite _resolve_unfold.
  set (h1 := h ++ [Store.Dict ∅]).
  assert (Hh1 : h `prefix_of` h1) by by apply prefix_app_r.
  assert (Hitems : Store.dict_items r h1 = (Ok (map_to_list din), h1)).
  { apply dict_items_run. by eapply prefix_lookup_Some. }
  rewrite (bind_run _ _ _ _ _ Hitems).
  assert (Hempty : h1 !! length h = Some (Store.Dict (∅ : gmap string Store.ref)))
    by by apply list_lookup_middle.
  destruct self as [[d|]].
  - destruct (for_each_loop_body_fresh {| _desired_num_of_artifact := Some d |}
                d h (length h) (map_to_list din)) with (h := h1) (dres := ∅ : gmap string Store.ref)
      as (h2 & dres & Hrun & _ & Hdict & Hfresh & Hinj);
      [done| |done|done|done|apply map_Forall_empty|by intros ???|].
    { apply Forall_forall. intros [k v] Hkv%elem_of_map_to_list.
      by apply (Hdin k v). }
    rewrite (bind_run _ _ _ _ _ Hrun). intros [= <- <-]. eauto.
  - destruct (map_to_list din) as [|[k v] items] eqn:Hlist.
    + cbn [Store.for_each]. unfold Store.bind, Store.ret.
      intros [= <- <-]. split; [done|]. exists ∅. split; [done|].
      split; [apply map_Forall_empty|by intros ???].
    + assert (din !! k = Some v) as Hk.
      { apply elem_of_map_to_list. rewrite Hlist. by left. }
      destruct (Hdin k v Hk) as [l Hl%read_list_Some].
      cbn [Store.for_each].
      erewrite bind_raise; [done|]. erewrite bind_raise; [done|].
      apply loop_body_None; [done|]. by eapply prefix_lookup_Some.
Qed.

(** The dict that [resolve_artifacts] returns is the one [_resolve]
    allocated, as [_resolve] left it. *)
Lemma resolve_artifacts_returned_dict self store h r m rr :
  Store.read_dict h r = Some m →
  (Store.resolve_artifacts id self store r h).1 = Ok (Some rr) →
  rr = length h
  ∧ ∃ dres,
      (Store.resolve_artifacts id self store r h).2 !! rr
      = Some (Store.Dict dres)
      ∧ map_Forall (λ _ v, (length h < v)%nat) dres
      ∧ (∀ k1 k2 v, dres !! k1 = Some v → dres !! k2 = Some v → k1 = k2).
Proof.
  intros Hm Hres.
  destruct (Store.resolve_artifacts id self store r h) as [res h'] eqn:Hrun.
  cbn [fst snd] in *. subst res.
  unfold Store.resolve_artifacts in Hrun.
  apply bind_Ok_inv in Hrun as (rd & h1 & Hresolve & Hrest).
  destruct (_resolve_fresh self r h m rd h1 Hm Hresolve)
    as (-> & dres & Hdict & Hfresh & Hinj).
  apply bind_Ok_inv in Hrest as (lists & h2 & Hvalues & Hrest).
  apply bind_Ok_inv in Hrest as (b & h3 & Hall & Hret).
  assert (Hh2 : h1 `prefix_of` h2).
  { eapply keeps_run; [|done|exact Hvalues].
    apply keeps_bind; [apply keeps_as_dict|]. intros ?. apply keeps_ret. }
  assert (Hh3 : h1 `prefix_of` h3).
  { eapply keeps_run; [|exact Hh2|exact Hall].
    apply keeps_all_m. intros v.
    apply keeps_bind; [apply keeps_list_len|]. intros n. apply keeps_lift. }
  unfold Store.ret in Hret. destruct b; [|done].
  injection Hret as <- <-.
  split; [done|]. exists dres. split; [by eapply prefix_lookup_Some|].
  split; [|done].
  intros k v Hk. specialize (Hfresh k v Hk). simpl in Hfresh. simpl. lia.
Qed.

(** X9. The mapping the call returns is a new dict holding new lists: the
    returned reference, and every reference stored in the returned dict,
    point to objects that did not exist before the call, and no stored
    reference is the returned dict itself.  So the result shares no list
    and no dict with the input, and a caller that later writes to it
    cannot change the input. *)
Theorem resolve_artifacts_returns_new_objects self store h r m rr :
  Store.read_dict h r = Some m →
  (Store.resolve_artifacts id self store r h).1 = Ok (Some rr) →
  (length h ≤ rr)%nat
  ∧ ∃ dres,
      (Store.resolve_artifacts id self store r h).2 !! rr
      = Some (Store.Dict dres)
      ∧ ∀ k v, dres !! k = Some v → (length h ≤ v)%nat ∧ v ≠ rr.
Proof.
  intros Hm Hres.
  destruct (resolve_artifacts_returned_dict self store h r m rr Hm Hres)
    as (-> & dres & Hdict & Hfresh & _).
  split; [done|]. exists dres. split; [done|].
  intros k v Hk. specialize (Hfresh k v Hk). simpl in Hfresh. lia.
Qed.

(** X10. Every channel of the returned mapping has a list object of its
    own: no reference is stored under two keys of the returned dict, also
    when two channels of the input share one list object. *)
Theorem resolve_artifacts_returns_separate_lists self store h r m rr :
  Store.read_dict h r = Some m →
  (Store.resolve_artifacts id self store r h).1 = Ok (Some rr) →
  ∃ dres,
    (Store.resolve_artifacts id self store r h).2 !! rr
    = Some (Store.Dict dres)
    ∧ ∀ k1 k2 v, dres !! k1 = Some v → dres !! k2 = Some v → k1 = k2.
Proof.
  intros Hm Hres.
  destruct (resolve_artifacts_returned_dict self store h r m rr Hm Hres)
    as (_ & dres & Hdict & _ & Hinj).
  by exists dres.
Qed.
End further_store_facts.

(** ** The further theorems at work on concrete inputs *)

(** X2 on the "model" channel of [example_input]. *)
Lemma default_resolves_to_latest_witness :
  resolve_artifacts test_id (__init__ Omitted) () example_input
  = Ok (Some example_latest)
  ∧ ∃ a, example_latest !! "model" = Some [a]
      ∧ a ∈ [with_id 3; with_id 7; with_id 5]
      ∧ (∀ b, b ∈ [with_id 3; with_id 7; with_id 5] → test_id b ≤ test_id a)
      ∧ head (filter (λ b, test_id b = test_id a)
                [with_id 3; with_id 7; with_id 5]) = Some a.
Proof.
  assert (H : resolve_artifacts test_id (__init__ Omitted) () example_input
              = Ok (Some example_latest))
    by (vm_compute; reflexivity).
  assert (Hk : example_input !! "model"
               = Some [with_id 3; with_id 7; with_id 5])
    by (vm_compute; reflexivity).
  exact (conj H (default_resolves_to_latest test_id () example_input
                   example_latest H "model" _ Hk)).
Defined.

(** X4 on [example_model] and [example_model']. *)
Lemma resolve_artifacts_order_independent_witness :
  map_Forall2 (λ _ l l', l ≡ₚ l') example_model example_model'
  ∧ map_Forall (λ _ l, NoDup (test_id <$> l)) example_model
  ∧ resolve_artifacts test_id (__init__ Omitted) () example_model
    = resolve_artifacts test_id (__init__ Omitted) () example_model'.
Proof.
  assert (H1 : map_Forall2 (λ _ l l', l ≡ₚ l') example_model example_model').
  { unfold example_model, example_model'. rewrite <-!insert_empty.
    apply map_Forall2_insert_2; [|apply map_Forall2_empty].
    apply (Permutation_cons_append [with_id 7; with_id 5] (with_id 3)). }
  assert (H2 : map_Forall (λ _ l, NoDup (test_id <$> l)) example_model).
  { apply map_Forall_singleton. apply (bool_decide_unpack _).
    vm_compute. exact I. }
  exact (conj H1 (conj H2
    (resolve_artifacts_order_independent test_id (__init__ Omitted) ()
       example_model example_model' H1 H2))).
Defined.

(** X5 on [example_input] with a desired count of 1. *)
Lemma resolve_artifacts_idempotent_witness :
  0 ≤ 1
  ∧ resolve_artifacts test_id (__init__ (Passed (Some 1))) () example_input
    = Ok (Some example_latest)
  ∧ resolve_artifacts test_id (__init__ (Passed (Some 1))) () example_latest
    = Ok (Some example_latest).
Proof.
  assert (H0 : 0 ≤ 1) by lia.
  assert (H : resolve_artifacts test_id (__init__ (Passed (Some 1))) ()
                example_input = Ok (Some example_latest))
    by (vm_compute; reflexivity).
  exact (conj H0 (conj H
    (resolve_artifacts_idempotent test_id () example_input 1 example_latest
       H0 H))).
Defined.

(** X6 on [example_model], from a desired count of 2 down to 1. *)
Lemma resolve_artifacts_monotone_witness :
  0 ≤ 1 ≤ 2
  ∧ resolve_artifacts test_id (__init__ (Passed (Some 2))) () example_model
    = Ok (Some {[ "model" := [with_id 7; with_id 5] ]})
  ∧ resolve_artifacts test_id (__init__ (Passed (Some 1))) () example_model
    = Ok (Some (take (Z.to_nat 1) <$> {[ "model" := [with_id 7; with_id 5] ]})).
Proof.
  assert (H0 : 0 ≤ 1 ≤ 2) by lia.
  assert (H : resolve_artifacts test_id (__init__ (Passed (Some 2))) ()
                example_model
              = Ok (Some {[ "model" := [with_id 7; with_id 5] ]}))
    by (vm_compute; reflexivity).
  exact (conj H0 (conj H
    (resolve_artifacts_monotone test_id () example_model 2 1 _ H0 H))).
Defined.

(** X7 on the two channels of [example_input], taken apart. *)
Lemma resolve_artifacts_union_witness :
  example_model ##ₘ example_data
  ∧ resolve_artifacts test_id (__init__ (Passed (Some 2))) ()
      (example_model ∪ example_data)
    = match resolve_artifacts test_id (__init__ (Passed (Some 2))) ()
              example_model,
            resolve_artifacts test_id (__init__ (Passed (Some 2))) ()
              example_data with
      | Ok (Some res1), Ok (Some res2) => Ok (Some (res1 ∪ res2))
      | Ok _, Ok _ => Ok None
      | Raise e, _ | _, Raise e => Raise e
      end.
Proof.
  assert (H : example_model ##ₘ example_data).
  { apply map_disjoint_singleton_l_2. by apply lookup_singleton_ne. }
  exact (conj H
    (resolve_artifacts_union test_id () 2 example_model example_data H)).
Defined.

(** X9 on [example_heap]: the returned dict is the object 3, behind the
    three objects of the caller. *)
Lemma resolve_artifacts_returns_new_objects_witness :
  Store.read_dict example_heap 2%nat = Some example_input
  ∧ (Store.resolve_artifacts test_id (__init__ Omitted) () 2%nat
       example_heap).1 = Ok (Some 3%nat)
  ∧ (length example_heap ≤ 3)%nat
  ∧ ∃ dres,
      (Store.resolve_artifacts test_id (__init__ Omitted) () 2%nat
         example_heap).2 !! 3%nat = Some (Store.Dict dres)
      ∧ ∀ k v, dres !! k = Some v →
          (length example_heap ≤ v)%nat ∧ v ≠ 3%nat.
Proof.
  assert (H : Store.read_dict example_heap 2%nat = Some example_input)
    by (vm_compute; reflexivity).
  assert (H' : (Store.resolve_artifacts test_id (__init__ Omitted) () 2%nat
                  example_heap).1 = Ok (Some 3%nat))
    by (vm_compute; reflexivity).
  exact (conj H (conj H'
    (resolve_artifacts_returns_new_objects test_id (__init__ Omitted) ()
       example_heap 2%nat example_input 3%nat H H'))).
Defined.

(** X10 on [example_shared_heap], where "model" and "baseline" are one
    list object in the input. *)
Lemma resolve_artifacts_returns_separate_lists_witness :
  Store.read_dict example_shared_heap 1%nat = Some example_shared_input
  ∧ (Store.resolve_artifacts test_id (__init__ Omitted) () 1%nat
       example_shared_heap).1 = Ok (Some 2%nat)
  ∧ ∃ dres,
      (Store.resolve_artifacts test_id (__init__ Omitted) () 1%nat
         example_shared_heap).2 !! 2%nat = Some (Store.Dict dres)
      ∧ ∀ k1 k2 v, dres !! k1 = Some v → dres !! k2 = Some v → k1 = k2.
Proof.
  assert (H : Store.read_dict example_shared_heap 1%nat
              = Some example_shared_input)
    by (vm_compute; reflexivity).
  assert (H' : (Store.resolve_artifacts test_id (__init__ Omitted) () 1%nat
                  example_shared_heap).1 = Ok (Some 2%nat))
    by (vm_compute; reflexivity).
  exact (conj H (conj H'
    (resolve_artifacts_returns_separate_lists test_id (__init__ Omitted) ()
       example_shared_heap 1%nat example_shared_input 2%nat H H'))).
Defined.
